(** * Mumsys_Generic_Manager: a shallow embedding and its properties

    The development follows [src/Mumsys/Generic/Manager.js] (and its older
    twin [src/Mumsys/Generic_Manager.js], which differs in layout and field
    names only).  The manager is a mutable JavaScript object; its methods
    are embedded as computations in a state-and-exception monad over a
    [World] that holds the object store, the receiver [this] and the trace
    of [jQuery.ajax] calls.

    Modelling boundaries, stated once:
    - numbers are integers ([Z]); NaN, fractions and the loss of precision
      beyond 2^53 are outside the model;
    - an object is the finite map of its own enumerable properties; what
      it inherits from [Object.prototype] or [Array.prototype] is not
      modelled, and a primitive is read as an object without properties;
    - [for ... in] loops are folds over that finite map.  Each of the loops
      of the source writes every key at most once, so the enumeration order
      does not show in the result;
    - callbacks handed to [jQuery.ajax] run later, outside the call that
      registers them; only the synchronous part of a method is embedded. *)

From Stdlib Require Import Ascii String ZArith.
From stdpp Require Import gmap strings list fin_maps pretty.

Local Open Scope string_scope.
Local Open Scope Z_scope.

(** ** JavaScript values *)

Abbreviation loc := positive (only parsing).

Inductive val : Type :=
  | VUndefined
  | VNull
  | VBool (b : bool)
  | VNum (n : Z)
  | VStr (s : string)
  | VObj (l : loc)          (* reference to a plain object *)
  | VItem (l : loc)         (* reference to a Mumsys_Generic_Item instance *)
  | VFun (name : string).   (* a function value, named after its place *)

Global Instance value_eq_dec : EqDecision val.
Proof. solve_decision. Defined.

(** [a === b]: no coercion, references compared by identity. *)
Definition strict_eq (a b : val) : bool := bool_decide (a = b).

(** [a !== b] *)
Definition strict_ne (a b : val) : bool := negb (strict_eq a b).

(** ToBoolean, as used by [if ( url )] and [if ( requestParams )]. *)
Definition to_boolean (v : val) : bool :=
  match v with
  | VUndefined | VNull => false
  | VBool b => b
  | VNum n => negb (n =? 0)
  | VStr s => negb (String.eqb s "")
  | VObj _ | VItem _ | VFun _ => true
  end.

(** ToString, which is also ToPropertyKey: [o[v]] addresses the property
    named [to_string v], and ['...' + v] appends it. *)
Definition to_string (v : val) : string :=
  match v with
  | VUndefined => "undefined"
  | VNull => "null"
  | VBool true => "true"
  | VBool false => "false"
  | VNum n => pretty n
  | VStr s => s
  | VObj _ | VItem _ => "[object Object]"
  | VFun name => name
  end.

(** ** The generic item *)

(** Modelled from the spec: the class Mumsys_Generic_Item is not part of the
    sources at hand.  The spec describes it as a record of named properties
    with a modification flag, exposing [get(key)], [set(key, value)],
    [getProperties()], [isModified()] and [setModified(bool)]. *)
Record Item : Type := mkItem {
  props : gmap string val;
  modified : bool
}.

Definition Item_get (it : Item) (key : string) : val :=
  default VUndefined (props it !! key).

Definition Item_set (it : Item) (key : string) (v : val) : Item :=
  {| props := <[key := v]> (props it); modified := true |}.

Definition Item_setModified (it : Item) (b : bool) : Item :=
  {| props := props it; modified := b |}.

(** ** The manager object and the world around it *)

Record Manager : Type := mkManager {
  __url : val;
  __itemList : list loc;
  __flags_isLoaded : bool;
  __map : gmap string nat
}.

Record World : Type := mkWorld {
  items : gmap loc Item;                 (* live Mumsys_Generic_Item objects *)
  objs : gmap loc (gmap string val);   (* live plain objects *)
  next_obj : loc;                        (* allocation pointer for [objs] *)
  this : Manager;
  ajax_calls : list val                (* arguments of jQuery.ajax, oldest first *)
}.

(** Field updates of [this]. *)
Definition set_url (v : val) (m : Manager) : Manager :=
  {| __url := v; __itemList := __itemList m;
     __flags_isLoaded := __flags_isLoaded m; __map := __map m |}.
Definition set_itemList (a : list loc) (m : Manager) : Manager :=
  {| __url := __url m; __itemList := a;
     __flags_isLoaded := __flags_isLoaded m; __map := __map m |}.
Definition set_map (mp : gmap string nat) (m : Manager) : Manager :=
  {| __url := __url m; __itemList := __itemList m;
     __flags_isLoaded := __flags_isLoaded m; __map := mp |}.

Definition with_this (f : Manager → Manager) (w : World) : World :=
  {| items := items w; objs := objs w; next_obj := next_obj w;
     this := f (this w); ajax_calls := ajax_calls w |}.

(** ** Exceptions and the monad of method bodies *)

Inductive exn : Type :=
  | Error (message : string)   (* throw new Error( message ) *)
  | TypeError.                 (* raised by the language itself *)

Inductive outcome (A : Type) : Type :=
  | Return (a : A)
  | Throw (e : exn).
Arguments Return {A} a.
Arguments Throw {A} e.

Definition M (A : Type) : Type := World → outcome A * World.

Global Instance M_ret : MRet M := λ A a w, (Return a, w).
Global Instance M_bind : MBind M := λ A B f m w,
  match m w with
  | (Return a, w') => f a w'
  | (Throw e, w') => (Throw e, w')
  end.

Definition throw {A} (e : exn) : M A := λ w, (Throw e, w).
Definition gets {A} (f : World → A) : M A := λ w, (Return (f w), w).
Definition modify (f : World → World) : M unit := λ w, (Return tt, f w).

(** ** Reading and writing the store *)

(** [item.get( key )] for the item at [l]. *)
Definition item_get (w : World) (l : loc) (key : string) : val :=
  match items w !! l with
  | Some it => Item_get it key
  | None => VUndefined
  end.

(** Own enumerable properties of a value, as [for ... in] visits them. *)
Definition enum_props (w : World) (v : val) : gmap string val :=
  match v with
  | VObj l => default ∅ (objs w !! l)
  | _ => ∅
  end.

(** [o[key]] on the properties of an object: undefined when absent. *)
Definition lookup_prop (o : gmap string val) (key : string) : val :=
  default VUndefined (o !! key).

(** [v[key]] *)
Definition get_prop (w : World) (v : val) (key : string) : val :=
  lookup_prop (enum_props w v) key.

(** [o.key] read from the plain object at [l]. *)
Definition read_prop (l : loc) (key : string) : M val := λ w,
  match objs w !! l with
  | Some o => (Return (lookup_prop o key), w)
  | None => (Throw TypeError, w)
  end.

(** [o[key] = v] on the plain object at [l]. *)
Definition set_prop (l : loc) (key : string) (v : val) : M unit := λ w,
  match objs w !! l with
  | Some o =>
      (Return tt,
       {| items := items w; objs := <[l := <[key := v]> o]> (objs w);
          next_obj := next_obj w; this := this w; ajax_calls := ajax_calls w |})
  | None => (Throw TypeError, w)
  end.

(** An object literal: a new plain object with the given properties. *)
Definition new_object (o : gmap string val) : M loc := λ w,
  (Return (next_obj w),
   {| items := items w; objs := <[next_obj w := o]> (objs w);
      next_obj := Pos.succ (next_obj w); this := this w;
      ajax_calls := ajax_calls w |}).

(** [a[k]] for an array and a position already computed as a number. *)
Definition array_at (a : list loc) (k : nat) : val :=
  from_option VItem VUndefined (a !! k).

(** [a[v]] for an array and an arbitrary value: the element whose index
    prints as [to_string v], else the [length] property, else undefined. *)
Definition array_get (a : list loc) (v : val) : val :=
  let key := to_string v in
  match list_find (λ i : nat, pretty (Z.of_nat i) = key) (seq 0 (length a)) with
  | Some (_, i) => array_at a i
  | None => if decide (key = "length") then VNum (Z.of_nat (length a))
            else VUndefined
  end.

(** ** The constructor *)

Definition Mumsys_Generic_Manager (url : val) : Manager :=
  let m := {| __url := VStr "jsonrpc.php"; __itemList := [];
              __flags_isLoaded := false; __map := ∅ |} in
  if to_boolean url then set_url url m else m.

(** ** Collection operations *)

Definition dquote : string := String "034"%char "".

Definition addItem (item : val) : M unit :=
  match item with
  | VItem l =>
      id ← gets (λ w, item_get w l "id");
      map ← gets (λ w, __map (this w));
      if strict_ne id VUndefined && bool_decide (is_Some (map !! to_string id))
      then
        let message := dquote +:+ "id" +:+ dquote +:+ " (" +:+ to_string id
                       +:+ ") is unique and already exists" in
        throw (Error message)
      else
        (if strict_ne id VUndefined
         then modify (with_this (λ m,
                set_map (<[to_string id := length (__itemList m)]> (__map m)) m))
         else mret tt);;
        modify (with_this (λ m, set_itemList (__itemList m ++ [l]) m))
  | _ => throw (Error "Invalid item")
  end.

(** The loop of [removeItem]: [i] is the loop counter, [rest] the elements
    [__itemList[i]], [__itemList[i+1]], ... still to visit. *)
Fixpoint removeItem_loop (w : World) (id : val) (i : nat) (rest : list loc)
    (_tmp : list loc) (_tmpmap : gmap string nat) : list loc * gmap string nat :=
  match rest with
  | [] => (_tmp, _tmpmap)
  | x :: rest' =>
      let itemID := item_get w x "id" in
      if strict_ne itemID id
      then removeItem_loop w id (S i) rest' (_tmp ++ [x])
             (<[to_string itemID := i]> _tmpmap)
      else removeItem_loop w id (S i) rest' _tmp _tmpmap
  end.

Definition removeItem (id : val) : M unit :=
  r ← gets (λ w, removeItem_loop w id 0 (__itemList (this w)) [] ∅);
  modify (with_this (set_itemList r.1));;
  modify (with_this (set_map r.2)).

Definition getItems : M (list loc) := gets (λ w, __itemList (this w)).

(** The fallback scan of [getItem]. *)
Fixpoint getItem_scan (w : World) (key value : val) (rest : list loc)
    : option loc :=
  match rest with
  | [] => None
  | x :: rest' =>
      if strict_eq (item_get w x (to_string key)) value then Some x
      else getItem_scan w key value rest'
  end.

Definition getItem (key value defreturn : val) : M val :=
  a ← gets (λ w, __itemList (this w));
  map ← gets (λ w, __map (this w));
  if strict_eq key (VStr "idx") then
    if strict_eq value (VNum (-1)) then
      let k := if Z.of_nat (length a) - 1 <? 0 then 0%nat
               else (length a - 1)%nat in
      mret (array_at a k)
    else mret (array_get a value)
  else
    match (if strict_eq key (VStr "id") then map !! to_string key else None) with
    | Some pos => mret (array_at a pos)
    | None =>
        found ← gets (λ w, getItem_scan w key value a);
        match found with
        | Some x => mret (VItem x)
        | None => mret defreturn
        end
    end.

Definition clear : M unit :=
  modify (with_this (set_itemList []));;
  modify (with_this (set_map ∅)).

Definition isLoaded : M bool := gets (λ w, __flags_isLoaded (this w)).

(** ** Building the request parameters *)

(** First loop of [_buildParams]: defaults the caller did not mention. *)
Definition copy_defaults (requestParams defaultParams : gmap string val)
    : gmap string val :=
  map_fold (λ keyA v obj,
              if strict_eq (lookup_prop requestParams keyA) VUndefined
              then <[keyA := v]> obj else obj)
           ∅ defaultParams.

(** Second loop: what the caller set to something other than null. *)
Definition copy_overrides (requestParams : gmap string val)
    (obj : gmap string val) : gmap string val :=
  map_fold (λ keyB v obj, if strict_ne v VNull then <[keyB := v]> obj else obj)
           obj requestParams.

(** [var obj = {}] is filled by the two loops before anything else can see
    it, so the object is allocated with its final properties. *)
Definition _buildParams (defaultParams : loc) (dataParams requestParams : val)
    : M val :=
  obj ← (if to_boolean requestParams then
           o ← gets (λ w,
                  copy_overrides (enum_props w requestParams)
                    (copy_defaults (enum_props w requestParams)
                       (enum_props w (VObj defaultParams))));
           new_object o
         else mret defaultParams);
  set_prop obj "data" dataParams;;
  mret (VObj obj).

(** ** The transport *)

(** [jQuery.ajax( params )]: the request is dispatched and the call returns;
    a callback chained with [.done( ... )] runs when the answer arrives. *)
Definition jQuery_ajax (params : val) : M unit :=
  modify (λ w, {| items := items w; objs := objs w; next_obj := next_obj w;
                  this := this w; ajax_calls := ajax_calls w ++ [params] |}).

(** ** Saving an item *)

(** Modelled from the spec: [item.isModified()] of the missing item class.
    A value that is no item has no such method. *)
Definition item_isModified (item : val) : M bool := λ w,
  match item with
  | VItem l =>
      match items w !! l with
      | Some it => (Return (modified it), w)
      | None => (Throw TypeError, w)
      end
  | _ => (Throw TypeError, w)
  end.

(** Modelled from the spec: [item.getProperties()] of the missing item
    class, the full property mapping as a plain object. *)
Definition item_getProperties (item : val) : M val :=
  match item with
  | VItem l =>
      o ← gets (λ w, from_option props ∅ (items w !! l));
      p ← new_object o;
      mret (VObj p)
  | _ => throw TypeError
  end.

(** Modelled from the spec: [item.setModified( b )] of the missing item
    class. *)
Definition item_setModified (item : val) (b : bool) : M unit := λ w,
  match item with
  | VItem l =>
      match items w !! l with
      | Some it =>
          (Return tt,
           {| items := <[l := Item_setModified it b]> (items w);
              objs := objs w; next_obj := next_obj w; this := this w;
              ajax_calls := ajax_calls w |})
      | None => (Throw TypeError, w)
      end
  | _ => (Throw TypeError, w)
  end.

Definition saveItem (item : val) (params : loc) (requestParams : val)
    : M val :=
  old ← read_prop params "item";
  if strict_ne old VUndefined then
    throw (Error "params.item property already defined")
  else
    dirty ← item_isModified item;
    ((if dirty : bool then
       p ← item_getProperties item;
       set_prop params "item" p;;
       url ← gets (λ w, __url (this w));
       defaultParams ← new_object
         (<["url" := url]> (<["type" := VStr "POST"]>
            (<["fail" := VFun "saveItem.fail"]> ∅)));
       reqParams ← _buildParams defaultParams (VObj params) requestParams;
       jQuery_ajax reqParams;;
       item_setModified item false
     else mret tt) : M unit);;
    mret item.

(** ** Loading items *)

Definition set_isLoaded (b : bool) (m : Manager) : Manager :=
  {| __url := __url m; __itemList := __itemList m;
     __flags_isLoaded := b; __map := __map m |}.

(** The defaults of [loadItems]; [success] and [error] are the two
    callbacks written in the object literal. *)
Definition loadItems_defaults (url : val) : gmap string val :=
  <["url" := url]> (<["async" := VBool true]> (<["type" := VStr "GET"]>
    (<["contentType" := VStr "application/json"]>
      (<["dataType" := VStr "json"]>
        (<["success" := VFun "loadItems.success"]>
          (<["error" := VFun "loadItems.error"]> ∅)))))).

(** The call itself: the flag is lowered, the request is built and
    dispatched.  The list is filled by the [success] callback, later. *)
Definition loadItems (data requestParams : val) : M unit :=
  modify (with_this (set_isLoaded false));;
  url ← gets (λ w, __url (this w));
  defaultParams ← new_object (loadItems_defaults url);
  _reParams ← _buildParams defaultParams data requestParams;
  jQuery_ajax _reParams.

(** * Vocabulary of the properties *)

(** The message of the duplicate-key error of [addItem]. *)
Definition duplicate_message (id : val) : string :=
  dquote +:+ "id" +:+ dquote +:+ " (" +:+ to_string id
  +:+ ") is unique and already exists".

(** ** Concrete worlds *)

Definition item_with_id (id : val) : Item :=
  {| props := {[ "id" := id ]}; modified := false |}.

(** A world with a new manager and nothing else but the given items. *)
Definition world_of_items (its : list (loc * Item)) : World :=
  {| items := list_to_map its; objs := ∅; next_obj := 1%positive;
     this := Mumsys_Generic_Manager (VBool false); ajax_calls := [] |}.

(** Items A, B and C with the ids 1, 2 and 3, not yet added. *)
Definition abc_world : World :=
  world_of_items [(1%positive, item_with_id (VNum 1));
                  (2%positive, item_with_id (VNum 2));
                  (3%positive, item_with_id (VNum 3))].

(** ** Sequences of mutations *)

Inductive mutation : Type :=
  | MAddItem (item : val)
  | MRemoveItem (id : val)
  | MClear.

Definition apply_mutation (m : mutation) : M unit :=
  match m with
  | MAddItem item => addItem item
  | MRemoveItem id => removeItem id
  | MClear => clear
  end.

(** A call that throws leaves the world as it is at the throw, and the
    caller goes on from there. *)
Fixpoint run_mutations (ms : list mutation) (w : World) : World :=
  match ms with
  | [] => w
  | m :: ms' => run_mutations ms' (apply_mutation m w).2
  end.

(** [abc_world] after [addItem(A)], [addItem(B)], [addItem(C)]. *)
Definition abc_added : World :=
  run_mutations [MAddItem (VItem 1); MAddItem (VItem 2); MAddItem (VItem 3)]
    abc_world.

(** The invariant of the id-index: an item of the list with a defined id is
    indexed at its position, and an entry of the index names the position
    of an item that carries its key as id. *)
Definition index_consistent (w : World) : Prop :=
  (∀ (i : nat) (x : loc),
     __itemList (this w) !! i = Some x →
     item_get w x "id" ≠ VUndefined →
     __map (this w) !! to_string (item_get w x "id") = Some i)
  ∧ (∀ (key : string) (pos : nat),
     __map (this w) !! key = Some pos →
     ∃ x, __itemList (this w) !! pos = Some x
          ∧ item_get w x "id" ≠ VUndefined
          ∧ to_string (item_get w x "id") = key).

(** An item X whose id is the string "id" and an item Y with the id 5. *)
Definition id_world : World :=
  world_of_items [(1%positive, item_with_id (VStr "id"));
                  (2%positive, item_with_id (VNum 5))].

(** C2 as the spec words it: a key that the overrides set to null keeps
    the value the defaults give it. *)
Definition null_override_keeps_default : Prop :=
  ∀ (w : World) (defaults overrides : loc) (data : val) (k : string),
    is_Some (objs w !! defaults) →
    objs w !! next_obj w = None →
    get_prop w (VObj overrides) k = VNull →
    get_prop w (VObj defaults) k ≠ VUndefined →
    ∃ l w', _buildParams defaults data (VObj overrides) w = (Return (VObj l), w')
            ∧ get_prop w' (VObj l) k = get_prop w (VObj defaults) k.

(** Defaults [{a:1}] at 1, data [{}] at 2 and overrides [{a:null}] at 3. *)
Definition null_world : World :=
  {| items := ∅;
     objs := list_to_map [(1%positive, {[ "a" := VNum 1 ]});
                          (2%positive, ∅);
                          (3%positive, {[ "a" := VNull ]})];
     next_obj := 4%positive; this := Mumsys_Generic_Manager (VBool false);
     ajax_calls := [] |}.

(** Defaults [{a:1, b:2}] at 1, data [{x:1}] at 2, overrides [{b:3, c:4}]
    at 3. *)
Definition example_world : World :=
  {| items := ∅;
     objs := list_to_map [(1%positive, {[ "a" := VNum 1; "b" := VNum 2 ]});
                          (2%positive, {[ "x" := VNum 1 ]});
                          (3%positive, {[ "b" := VNum 3; "c" := VNum 4 ]})];
     next_obj := 4%positive; this := Mumsys_Generic_Manager (VBool false);
     ajax_calls := [] |}.

(** A clean item at 1, a modified one at 2; params [{action:"save"}] at 1
    and params that already carry an [item] at 2. *)
Definition save_world : World :=
  {| items := list_to_map
       [(1%positive, {| props := {[ "id" := VNum 1 ]}; modified := false |});
        (2%positive, {| props := {[ "id" := VNum 2 ]}; modified := true |})];
     objs := list_to_map
       [(1%positive, {[ "action" := VStr "save" ]});
        (2%positive, {[ "item" := VNum 7 ]})];
     next_obj := 3%positive; this := Mumsys_Generic_Manager (VBool false);
     ajax_calls := [] |}.

(** ** Further vocabulary *)

(** The property key under which the index knows the item at [x], if the
    item has an id. *)
Definition id_key (w : World) (x : loc) : option string :=
  if strict_ne (item_get w x "id") VUndefined
  then Some (to_string (item_get w x "id")) else None.

(** No two items of the list carry ids with the same property key, and
    the index has an entry for each of these keys. *)
Definition unique_ids (w : World) : Prop :=
  NoDup (omap (id_key w) (__itemList (this w)))
  ∧ ∀ key, key ∈ omap (id_key w) (__itemList (this w)) →
           is_Some (__map (this w) !! key).

Definition is_remove (m : mutation) : bool :=
  match m with MRemoveItem _ => true | _ => false end.


(** Two items named "n", after one named "m". *)
Definition named_world : World :=
  {| items := list_to_map
       [(1%positive, {| props := {[ "name" := VStr "m" ]}; modified := false |});
        (2%positive, {| props := {[ "name" := VStr "n" ]}; modified := false |});
        (3%positive, {| props := {[ "name" := VStr "n" ]}; modified := false |})];
     objs := ∅; next_obj := 1%positive;
     this := set_itemList [1%positive; 2%positive; 3%positive]
               (Mumsys_Generic_Manager (VBool false));
     ajax_calls := [] |}.

(** Defaults [{a:1, b:2, c:3}] at 1 and overrides
    [{a:undefined, b:null, d:4}] at 2. *)
Definition merge_world : World :=
  {| items := ∅;
     objs := list_to_map
       [(1%positive, {[ "a" := VNum 1; "b" := VNum 2; "c" := VNum 3 ]});
        (2%positive, {[ "a" := VUndefined; "b" := VNull; "d" := VNum 4 ]})];
     next_obj := 3%positive; this := Mumsys_Generic_Manager (VBool false);
     ajax_calls := [] |}.

(** The defaults of [saveItem]. *)
Definition saveItem_defaults (url : val) : gmap string val :=
  <["url" := url]> (<["type" := VStr "POST"]>
    (<["fail" := VFun "saveItem.fail"]> ∅)).

(** A modified item at 1 and two params objects without [item]. *)
Definition resave_world : World :=
  {| items := list_to_map
       [(1%positive, {| props := {[ "name" := VStr "n" ]}; modified := true |})];
     objs := list_to_map
       [(1%positive, {[ "action" := VStr "save" ]});
        (2%positive, {[ "action" := VStr "again" ]})];
     next_obj := 3%positive; this := Mumsys_Generic_Manager (VBool false);
     ajax_calls := [] |}.

(** * Properties *)

(** ** Strict comparison *)

Lemma strict_eq_true (a b : val) : strict_eq a b = true ↔ a = b.
Proof. unfold strict_eq. apply bool_decide_eq_true. Qed.

Lemma strict_eq_false (a b : val) : strict_eq a b = false ↔ a ≠ b.
Proof. unfold strict_eq. apply bool_decide_eq_false. Qed.

Lemma strict_ne_true (a b : val) : strict_ne a b = true ↔ a ≠ b.
Proof. unfold strict_ne. rewrite negb_true_iff. apply strict_eq_false. Qed.

Lemma strict_ne_false (a b : val) : strict_ne a b = false ↔ a = b.
Proof. unfold strict_ne. rewrite negb_false_iff. apply strict_eq_true. Qed.

(** ** The two loops of [_buildParams] *)

Section build_params_loops.
Implicit Types rp dp obj : gmap string val.

(** A default survives the first loop exactly when the caller's object
    reads undefined at its key. *)
Lemma copy_defaults_lookup rp dp (k : string) :
  copy_defaults rp dp !! k =
    if strict_eq (lookup_prop rp k) VUndefined then dp !! k else None.
Proof.
  unfold copy_defaults. revert k.
  apply (map_fold_weak_ind (λ r m, ∀ k, r !! k =
           if strict_eq (lookup_prop rp k) VUndefined then m !! k else None)).
  - intros k. rewrite lookup_empty. by destruct (strict_eq _ _).
  - intros i x m r Hi IH k.
    destruct (decide (k = i)) as [->|Hne].
    + destruct (strict_eq (lookup_prop rp i) VUndefined) eqn:E.
      * by rewrite !lookup_insert_eq.
      * specialize (IH i). by rewrite E in IH.
    + rewrite (lookup_insert_ne m) by done.
      destruct (strict_eq (lookup_prop rp i) VUndefined);
        [rewrite lookup_insert_ne by done|]; apply IH.
Qed.

(** The second loop writes every property of the caller's object that is
    not null, and leaves the other keys as the first loop set them. *)
Lemma copy_overrides_lookup rp obj (k : string) :
  copy_overrides rp obj !! k =
    match rp !! k with
    | Some v => if strict_ne v VNull then Some v else obj !! k
    | None => obj !! k
    end.
Proof.
  unfold copy_overrides. revert k.
  apply (map_fold_weak_ind (λ r m, ∀ k, r !! k =
           match m !! k with
           | Some v => if strict_ne v VNull then Some v else obj !! k
           | None => obj !! k
           end)).
  - intros k. by rewrite lookup_empty.
  - intros i x m r Hi IH k.
    destruct (decide (k = i)) as [->|Hne].
    + rewrite lookup_insert_eq. specialize (IH i). rewrite Hi in IH.
      destruct (strict_ne x VNull); [by rewrite lookup_insert_eq|done].
    + rewrite (lookup_insert_ne m) by done.
      destruct (strict_ne x VNull);
        [rewrite lookup_insert_ne by done|]; apply IH.
Qed.
End build_params_loops.

(** ** The loop of [removeItem] *)

Section remove_loop.
Variable w : World.
Variable id : val.

(** The rebuilt list is the old one without the items whose id is [id]. *)
Lemma removeItem_loop_list (rest : list loc) :
  ∀ (i : nat) (_tmp : list loc) (_tmpmap : gmap string nat),
    (removeItem_loop w id i rest _tmp _tmpmap).1 =
    (_tmp ++ filter (λ x, item_get w x "id" ≠ id) rest)%list.
Proof.
  induction rest as [|x rest IH]; intros i _tmp _tmpmap; simpl.
  - by rewrite app_nil_r.
  - destruct (strict_ne (item_get w x "id") id) eqn:E.
    + apply strict_ne_true in E. rewrite IH, filter_cons_True by done.
      by rewrite <- app_assoc.
    + apply strict_ne_false in E. rewrite IH, filter_cons_False; [done|].
      intros Hne. by apply Hne.
Qed.

Lemma filter_no_match (rest : list loc) :
  (∀ x, x ∈ rest → item_get w x "id" ≠ id) →
  filter (λ x, item_get w x "id" ≠ id) rest = rest.
Proof.
  induction rest as [|x rest IH]; intros H; [done|].
  rewrite filter_cons_True by (apply H; left).
  f_equal. apply IH. intros y Hy. apply H. by right.
Qed.
End remove_loop.

Lemma removeItem_eq (id : val) (w : World) :
  removeItem id w =
    (Return tt,
     with_this (set_map (removeItem_loop w id 0 (__itemList (this w)) [] ∅).2)
       (with_this
          (set_itemList (removeItem_loop w id 0 (__itemList (this w)) [] ∅).1)
          w)).
Proof. reflexivity. Qed.

(** ** clear and the loaded flag *)

(** C10: [clear()] empties the item list and the id-index and returns
    normally; the loaded flag is not touched, so [isLoaded()] answers after
    the call what it answered before. *)
Theorem clear_keeps_isLoaded (w : World) :
  ∃ w', clear w = (Return tt, w')
        ∧ __itemList (this w') = []
        ∧ __map (this w') = ∅
        ∧ (isLoaded w').1 = (isLoaded w).1
        ∧ __flags_isLoaded (this w') = __flags_isLoaded (this w).
Proof. eexists. split; [reflexivity|]. by repeat split. Qed.

(** ** Positional lookup *)

Lemma getItem_idx_minus_one (defreturn : val) (w : World) :
  getItem (VStr "idx") (VNum (-1)) defreturn w =
    (Return (from_option VItem VUndefined (last (__itemList (this w)))), w).
Proof.
  unfold getItem, mbind, M_bind, gets, mret, M_ret. simpl.
  f_equal. f_equal. unfold array_at.
  destruct (__itemList (this w)) as [|x a] using rev_ind; [done|].
  rewrite length_app, last_snoc. simpl.
  destruct (Z.ltb_spec (Z.of_nat (length a + 1) - 1) 0); [lia|].
  replace (length a + 1 - 1)%nat with (length a) by lia.
  by rewrite list_lookup_middle.
Qed.

(** C9: [getItem("idx", -1)] returns the last item of a collection that has
    one, the third of a collection of three, and on an empty collection it
    reads position 0 and returns undefined without throwing. *)
Theorem getItem_idx_last (defreturn : val) (w : World) :
  (∀ a x, __itemList (this w) = (a ++ [x])%list →
     getItem (VStr "idx") (VNum (-1)) defreturn w = (Return (VItem x), w))
  ∧ (∀ x1 x2 x3, __itemList (this w) = [x1; x2; x3] →
     getItem (VStr "idx") (VNum (-1)) defreturn w = (Return (VItem x3), w))
  ∧ (__itemList (this w) = [] →
     array_at (__itemList (this w)) 0 = VUndefined
     ∧ getItem (VStr "idx") (VNum (-1)) defreturn w = (Return VUndefined, w)).
Proof.
  rewrite getItem_idx_minus_one. split; [|split].
  - intros a x ->. by rewrite last_snoc.
  - by intros x1 x2 x3 ->.
  - by intros ->.
Qed.

(** ** Adding an item *)

(** C3: when the id of the item is defined and the id-index has an entry
    for it, [addItem] throws the duplicate-key error and the world after
    the call, item list and id-index included, is the world before it. *)
Theorem addItem_duplicate_atomic (w : World) (l : loc) (id : val) (pos : nat) :
  item_get w l "id" = id →
  id ≠ VUndefined →
  __map (this w) !! to_string id = Some pos →
  addItem (VItem l) w = (Throw (Error (duplicate_message id)), w).
Proof.
  intros Hid Hdef Hpos. unfold addItem, mbind, M_bind, gets. simpl.
  rewrite Hid, Hpos.
  apply strict_ne_true in Hdef. rewrite Hdef. reflexivity.
Qed.

(** ** Removing an item *)

(** C4: on the collection [A(id=1), B(id=2), C(id=3)], [removeItem(2)]
    leaves exactly [A, C] in that order and [getItem("idx", 1)] then returns
    C; [removeItem] with an id that no item carries leaves the item list,
    and so its length, as it was; and since ids are compared with [!==], a
    string never matches a number. *)
Theorem removeItem_list (defreturn : val) :
  (∀ w A B C,
     __itemList (this w) = [A; B; C] →
     item_get w A "id" = VNum 1 →
     item_get w B "id" = VNum 2 →
     item_get w C "id" = VNum 3 →
     ∃ w', removeItem (VNum 2) w = (Return tt, w')
           ∧ getItems w' = (Return [A; C], w')
           ∧ getItem (VStr "idx") (VNum 1) defreturn w' = (Return (VItem C), w'))
  ∧ (∀ w id,
     (∀ x, x ∈ __itemList (this w) → item_get w x "id" ≠ id) →
     ∃ w', removeItem id w = (Return tt, w')
           ∧ __itemList (this w') = __itemList (this w)
           ∧ length (__itemList (this w')) = length (__itemList (this w)))
  ∧ (∀ s n, strict_ne (VNum n) (VStr s) = true
            ∧ strict_ne (VStr s) (VNum n) = true).
Proof.
  split; [|split].
  - intros w A B C Hl HA HB HC. rewrite removeItem_eq, Hl.
    eexists. split; [reflexivity|]. simpl. rewrite HA, HB, HC. simpl.
    split; reflexivity.
  - intros w id Hno. rewrite removeItem_eq. eexists. split; [reflexivity|].
    simpl. rewrite removeItem_loop_list. simpl.
    by rewrite filter_no_match.
  - intros s n. split; reflexivity.
Qed.

Lemma removeItem_list_witness :
  (∃ w', removeItem (VNum 2) abc_added = (Return tt, w')
         ∧ getItems w' = (Return [1%positive; 3%positive], w')
         ∧ getItem (VStr "idx") (VNum 1) VUndefined w'
           = (Return (VItem 3), w'))
  ∧ (∃ w', removeItem (VStr "3") abc_added = (Return tt, w')
           ∧ __itemList (this w') = __itemList (this abc_added)
           ∧ length (__itemList (this w')) = length (__itemList (this abc_added))).
Proof.
  split.
  - apply (proj1 (removeItem_list VUndefined) abc_added
             1%positive 2%positive 3%positive); reflexivity.
  - apply (proj1 (proj2 (removeItem_list VUndefined)) abc_added (VStr "3")).
    intros x Hx. vm_compute in Hx.
    repeat (apply elem_of_cons in Hx as [->|Hx]; [by vm_compute|]).
    by apply elem_of_nil in Hx.
Defined.

(** ** The id-index *)

Lemma new_manager_index_consistent (w : World) (url : val) :
  this w = Mumsys_Generic_Manager url → index_consistent w.
Proof.
  intros H. unfold index_consistent. rewrite H. unfold Mumsys_Generic_Manager.
  destruct (to_boolean url); simpl; split; intros ??; by rewrite ?lookup_empty.
Qed.

Lemma clear_index_consistent (w : World) : index_consistent (clear w).2.
Proof. split; simpl; intros ??; by rewrite ?lookup_empty. Qed.

(** [addItem] records the position the item is about to take, so it keeps
    the index consistent. *)
Lemma addItem_index_consistent (item : val) (w : World) :
  index_consistent w → index_consistent (addItem item w).2.
Proof.
  intros [H1 H2]. destruct item as [| | | | | |l|]; try done.
  unfold addItem, mbind, M_bind, gets. simpl.
  destruct (strict_ne (item_get w l "id") VUndefined) eqn:Hdef; simpl.
  - destruct (__map (this w) !! to_string (item_get w l "id")) as [p|] eqn:Hm.
    { rewrite bool_decide_eq_true_2 by eauto. by split. }
    rewrite bool_decide_eq_false_2 by (by intros [? ?]).
    apply strict_ne_true in Hdef.
    split; simpl; change (item_get (with_this _ (with_this _ w)))
      with (item_get w).
    + intros i x Hi Hx. apply lookup_app_Some in Hi as [Hi|[Hlen Hi]].
      * rewrite lookup_insert_ne; [by apply H1|].
        intros Heq. specialize (H1 i x Hi Hx). congruence.
      * apply list_lookup_singleton_Some in Hi as [Hi <-].
        rewrite lookup_insert_eq. f_equal. lia.
    + intros key pos Hk. apply lookup_insert_Some in Hk as [[<- <-]|[Hne Hk]].
      * exists l. split; [|done]. by rewrite list_lookup_middle.
      * destruct (H2 key pos Hk) as (x & Hx & ?). exists x. split; [|done].
        by apply lookup_app_l_Some.
  - apply strict_ne_false in Hdef.
    split; simpl; change (item_get (with_this _ w)) with (item_get w).
    + intros i x Hi Hx. apply lookup_app_Some in Hi as [Hi|[Hlen Hi]].
      * by apply H1.
      * apply list_lookup_singleton_Some in Hi as [Hi <-]. done.
    + intros key pos Hk. destruct (H2 key pos Hk) as (x & Hx & ?).
      exists x. split; [|done]. by apply lookup_app_l_Some.
Qed.

(** C1, at the input that breaks it: a new manager, [addItem] of A, B and C
    with the ids 1, 2 and 3, then [removeItem(2)].  The list is [A, C], so C
    stands at position 1, but [removeItem] has entered C under the loop
    counter, its old position 2: the index is not consistent with the
    list. *)
Theorem removeItem_breaks_index :
  let w := run_mutations [MAddItem (VItem 1); MAddItem (VItem 2);
                          MAddItem (VItem 3); MRemoveItem (VNum 2)] abc_world in
  this abc_world = Mumsys_Generic_Manager (VBool false)
  ∧ __itemList (this w) = [1%positive; 3%positive]
  ∧ item_get w 3%positive "id" = VNum 3
  ∧ __map (this w) !! to_string (VNum 3) = Some 2%nat
  ∧ ¬ index_consistent w.
Proof.
  intros w. repeat split; try reflexivity.
  intros [H1 _]. specialize (H1 1%nat 3%positive eq_refl).
  vm_compute in H1. by specialize (H1 ltac:(discriminate)).
Qed.

(** ** Lookup by id *)

(** C5, at the input that breaks it: the manager holds X, whose id is the
    string "id"; Y with the unused id 5 is added and the list grows by one,
    but [getItem("id", 5)] finds an entry under the literal key "id" in the
    index and returns X. *)
Theorem getItem_id_returns_other_item :
  let w1 := run_mutations [MAddItem (VItem 1)] id_world in
  (∀ x, x ∈ __itemList (this w1) → item_get w1 x "id" ≠ VNum 5)
  ∧ item_get w1 2%positive "id" = VNum 5
  ∧ ∃ w2, addItem (VItem 2) w1 = (Return tt, w2)
          ∧ length (__itemList (this w2)) = S (length (__itemList (this w1)))
          ∧ getItem (VStr "id") (VNum 5) VUndefined w2 = (Return (VItem 1), w2)
          ∧ getItem_scan w2 (VStr "id") (VNum 5) (__itemList (this w2))
            = Some 2%positive.
Proof.
  intros w1. split; [|split; [reflexivity|]].
  - intros x Hx. vm_compute in Hx.
    apply elem_of_cons in Hx as [->|Hx]; [by vm_compute|].
    by apply elem_of_nil in Hx.
  - eexists. split; [reflexivity|]. repeat split; reflexivity.
Qed.

(** Property keys are strings, so the ids 3 and "3" share one entry of the
    index although [removeItem] and the scan of [getItem] tell them apart:
    with an item of id 3 in the list, an item of id "3" is refused. *)
Example addItem_number_string_collision :
  let w := world_of_items [(1%positive, item_with_id (VNum 3));
                           (2%positive, item_with_id (VStr "3"))] in
  let w1 := run_mutations [MAddItem (VItem 1)] w in
  strict_eq (item_get w1 1%positive "id") (item_get w1 2%positive "id") = false
  ∧ addItem (VItem 2) w1 = (Throw (Error (duplicate_message (VStr "3"))), w1).
Proof. split; reflexivity. Qed.

(** The fallback scan does find a newly added item: when the index has no
    entry under the literal key "id", [getItem("id", id)] returns the item
    just added under an id that no other item carries. *)
Lemma getItem_scan_new (w : World) (key value : val) (a : list loc) (x : loc) :
  (∀ y, y ∈ a → item_get w y (to_string key) ≠ value) →
  item_get w x (to_string key) = value →
  getItem_scan w key value (a ++ [x]) = Some x.
Proof.
  intros Hno Hx. induction a as [|y a IH]; simpl.
  - apply strict_eq_true in Hx. by rewrite Hx.
  - assert (strict_eq (item_get w y (to_string key)) value = false) as ->.
    { apply strict_eq_false, Hno. left. }
    apply IH. intros z Hz. apply Hno. by right.
Qed.

Lemma addItem_then_getItem_by_scan (w : World) (l : loc) (id defreturn : val) :
  item_get w l "id" = id →
  id ≠ VUndefined →
  __map (this w) !! to_string id = None →
  __map (this w) !! "id" = None →
  to_string id ≠ "id" →
  (∀ y, y ∈ __itemList (this w) → item_get w y "id" ≠ id) →
  ∃ w', addItem (VItem l) w = (Return tt, w')
        ∧ length (__itemList (this w')) = S (length (__itemList (this w)))
        ∧ getItem (VStr "id") id defreturn w' = (Return (VItem l), w').
Proof.
  intros Hid Hdef Hfree Hkey Hne Hno.
  unfold addItem, mbind, M_bind, gets. simpl. rewrite Hid, Hfree.
  apply strict_ne_true in Hdef. rewrite Hdef. simpl.
  eexists. split; [reflexivity|]. simpl. split.
  { rewrite length_app. simpl. lia. }
  unfold getItem, mbind, M_bind, gets, mret, M_ret. simpl.
  rewrite lookup_insert_ne, Hkey by done.
  rewrite (getItem_scan_new _ (VStr "id") id _ l); [done|exact Hno|exact Hid].
Qed.

(** ** The merged request parameters *)

Lemma buildParams_object (defaultParams overrides : loc) (data : val)
    (w : World) :
  _buildParams defaultParams data (VObj overrides) w =
    (Return (VObj (next_obj w)),
     {| items := items w;
        objs := <[next_obj w :=
                  <["data" := data]>
                    (copy_overrides (enum_props w (VObj overrides))
                       (copy_defaults (enum_props w (VObj overrides))
                          (enum_props w (VObj defaultParams))))]>
                  (<[next_obj w :=
                     copy_overrides (enum_props w (VObj overrides))
                       (copy_defaults (enum_props w (VObj overrides))
                          (enum_props w (VObj defaultParams)))]> (objs w));
        next_obj := Pos.succ (next_obj w); this := this w;
        ajax_calls := ajax_calls w |}).
Proof.
  unfold _buildParams, mbind, M_bind, gets, new_object, set_prop, mret, M_ret.
  simpl. by rewrite lookup_insert_eq.
Qed.

(** With defaults [{a:1}] and overrides [{a:null}] the bag has no [a]. *)
Lemma null_override_drops_default : ¬ null_override_keeps_default.
Proof.
  intros H.
  destruct (H null_world 1%positive 3%positive (VObj 2) "a")
    as (l & w' & Hrun & Hk); [by eexists|reflexivity|reflexivity|done|].
  rewrite buildParams_object in Hrun. injection Hrun as <- <-.
  vm_compute in Hk. discriminate.
Qed.

(** C2, amended: a key other than [data] that the overrides set to null
    has no entry in the returned bag, whatever the defaults hold for it;
    the null is not copied, and neither is the default. *)
Theorem buildParams_null_resets_key (w : World) (defaults overrides : loc)
    (data : val) (k : string) :
  get_prop w (VObj overrides) k = VNull →
  k ≠ "data" →
  ∃ l w', _buildParams defaults data (VObj overrides) w = (Return (VObj l), w')
          ∧ enum_props w' (VObj l) !! k = None
          ∧ get_prop w' (VObj l) k = VUndefined.
Proof.
  intros Hnull Hk. rewrite buildParams_object. do 2 eexists.
  split; [reflexivity|].
  assert (enum_props w (VObj overrides) !! k = Some VNull) as Hov.
  { unfold get_prop, lookup_prop in Hnull.
    destruct (enum_props w (VObj overrides) !! k); simpl in Hnull; by subst. }
  clear Hnull.
  generalize dependent (enum_props w (VObj overrides)). intros rp Hov.
  generalize (enum_props w (VObj defaults)). intros dp.
  unfold get_prop, lookup_prop, enum_props. simpl.
  rewrite lookup_insert_eq. simpl. rewrite lookup_insert_ne by done.
  rewrite copy_overrides_lookup, Hov. simpl.
  rewrite copy_defaults_lookup. unfold lookup_prop. rewrite Hov. simpl.
  by split.
Qed.

Lemma buildParams_null_resets_key_witness :
  ∃ l w', _buildParams 1%positive (VObj 2) (VObj 3) null_world
            = (Return (VObj l), w')
          ∧ enum_props w' (VObj l) !! "a" = None
          ∧ get_prop w' (VObj l) "a" = VUndefined.
Proof.
  apply (buildParams_null_resets_key null_world 1%positive 3%positive
           (VObj 2) "a"); [reflexivity|discriminate].
Defined.

(** C6: with defaults [{a:1, b:2}], data [{x:1}] and overrides
    [{b:3, c:4}] the bag is exactly [{a:1, b:3, c:4, data:{x:1}}]; and
    whatever the arguments, the [data] property of the returned bag is the
    data argument. *)
Theorem buildParams_example_and_data :
  (∀ w defaults data overrides,
     objs w !! defaults = Some {[ "a" := VNum 1; "b" := VNum 2 ]} →
     objs w !! data = Some {[ "x" := VNum 1 ]} →
     objs w !! overrides = Some {[ "b" := VNum 3; "c" := VNum 4 ]} →
     objs w !! next_obj w = None →
     ∃ l w', _buildParams defaults (VObj data) (VObj overrides) w
               = (Return (VObj l), w')
             ∧ objs w' !! l = Some {[ "a" := VNum 1; "b" := VNum 3;
                                     "c" := VNum 4; "data" := VObj data ]}
             ∧ objs w' !! data = Some {[ "x" := VNum 1 ]})
  ∧ (∀ w defaults data requestParams,
     is_Some (objs w !! defaults) →
     ∃ l w', _buildParams defaults data requestParams w = (Return (VObj l), w')
             ∧ enum_props w' (VObj l) !! "data" = Some data
             ∧ get_prop w' (VObj l) "data" = data).
Proof.
  split.
  - intros w defaults data overrides Hd Hx Hov Hfresh.
    rewrite buildParams_object. do 2 eexists. split; [reflexivity|]. simpl.
    rewrite Hd, Hov, lookup_insert_eq. simpl. split.
    + by vm_compute.
    + rewrite !lookup_insert_ne by congruence. done.
  - intros w defaults data requestParams [o Ho].
    unfold _buildParams, mbind, M_bind, gets, new_object, set_prop, mret, M_ret,
      get_prop, lookup_prop, enum_props.
    destruct (to_boolean requestParams); simpl.
    + rewrite lookup_insert_eq. do 2 eexists. split; [reflexivity|]. simpl.
      rewrite lookup_insert_eq. simpl. by rewrite lookup_insert_eq.
    + rewrite Ho. do 2 eexists. split; [reflexivity|]. simpl.
      rewrite lookup_insert_eq. simpl. by rewrite lookup_insert_eq.
Qed.

Lemma buildParams_example_and_data_witness :
  (∃ l w', _buildParams 1%positive (VObj 2) (VObj 3) example_world
             = (Return (VObj l), w')
           ∧ objs w' !! l = Some {[ "a" := VNum 1; "b" := VNum 3;
                                   "c" := VNum 4; "data" := VObj 2 ]}
           ∧ objs w' !! 2%positive = Some {[ "x" := VNum 1 ]})
  ∧ (∃ l w', _buildParams 1%positive (VObj 2) (VBool false) example_world
               = (Return (VObj l), w')
             ∧ enum_props w' (VObj l) !! "data" = Some (VObj 2)
             ∧ get_prop w' (VObj l) "data" = VObj 2).
Proof.
  split.
  - apply (proj1 buildParams_example_and_data example_world
             1%positive 2%positive 3%positive); reflexivity.
  - apply (proj2 buildParams_example_and_data example_world
             1%positive (VObj 2) (VBool false)).
    by eexists.
Defined.

(** ** Saving *)

(** C7: for an item that is not modified and a params object without an
    [item] property, [saveItem] returns the reference it was given and the
    world after the call is the world before it: no call of [jQuery.ajax]
    is recorded, and the manager and the item are as they were. *)
Theorem saveItem_unmodified_noop (w : World) (l : loc) (it : Item)
    (params : loc) (requestParams : val) :
  items w !! l = Some it →
  modified it = false →
  is_Some (objs w !! params) →
  get_prop w (VObj params) "item" = VUndefined →
  ∃ w', saveItem (VItem l) params requestParams w = (Return (VItem l), w')
        ∧ w' = w
        ∧ ajax_calls w' = ajax_calls w
        ∧ this w' = this w
        ∧ items w' !! l = Some it.
Proof.
  intros Hit Hclean [o Ho] Hnone. exists w. split; [|done].
  unfold get_prop, enum_props in Hnone. rewrite Ho in Hnone. simpl in Hnone.
  unfold saveItem, mbind, M_bind, read_prop, item_isModified.
  rewrite Ho, Hnone. simpl. by rewrite Hit, Hclean.
Qed.

(** C8: when [params.item] is already defined, [saveItem] throws its
    invalid-argument error at once, whatever the item and its dirty flag;
    the world is untouched, so no call of [jQuery.ajax] has been made. *)
Theorem saveItem_reserved_key (w : World) (item : val) (params : loc)
    (requestParams : val) :
  get_prop w (VObj params) "item" ≠ VUndefined →
  saveItem item params requestParams w
    = (Throw (Error "params.item property already defined"), w)
  ∧ ajax_calls (saveItem item params requestParams w).2 = ajax_calls w.
Proof.
  intros Hdef.
  assert (saveItem item params requestParams w
            = (Throw (Error "params.item property already defined"), w)) as ->;
    [|done].
  unfold get_prop, enum_props, lookup_prop in Hdef.
  unfold saveItem, mbind, M_bind, read_prop.
  destruct (objs w !! params) as [o|]; simpl in Hdef; [|done].
  apply strict_ne_true in Hdef. unfold lookup_prop. by rewrite Hdef.
Qed.

Lemma saveItem_unmodified_noop_witness :
  ∃ w', saveItem (VItem 1) 1%positive (VBool false) save_world
          = (Return (VItem 1), w')
        ∧ w' = save_world
        ∧ ajax_calls w' = ajax_calls save_world
        ∧ this w' = this save_world
        ∧ items w' !! 1%positive
          = Some {| props := {[ "id" := VNum 1 ]}; modified := false |}.
Proof.
  apply (saveItem_unmodified_noop save_world 1%positive
           {| props := {[ "id" := VNum 1 ]}; modified := false |}
           1%positive (VBool false));
    [reflexivity|reflexivity|by eexists|reflexivity].
Defined.

Lemma saveItem_reserved_key_witness :
  saveItem (VItem 2) 2%positive (VBool false) save_world
    = (Throw (Error "params.item property already defined"), save_world)
  ∧ ajax_calls (saveItem (VItem 2) 2%positive (VBool false) save_world).2
    = ajax_calls save_world.
Proof.
  apply (saveItem_reserved_key save_world (VItem 2) 2%positive (VBool false)).
  vm_compute. discriminate.
Defined.

(** The other branch, for comparison: a modified item is sent, once, with
    its properties under [item], and its flag is cleared. *)
Example saveItem_modified_dispatches :
  let r := saveItem (VItem 2) 1%positive (VBool false) save_world in
  r.1 = Return (VItem 2)
  ∧ length (ajax_calls r.2) = 1%nat
  ∧ modified <$> items r.2 !! 2%positive = Some false
  ∧ get_prop r.2 (VObj 1) "item" = VObj 3.
Proof. by vm_compute. Qed.

(** ** Witnesses of the remaining statements *)

Lemma getItem_idx_last_witness :
  getItem (VStr "idx") (VNum (-1)) VNull abc_added = (Return (VItem 3), abc_added)
  ∧ getItem (VStr "idx") (VNum (-1)) VNull abc_added = (Return (VItem 3), abc_added)
  ∧ (array_at (__itemList (this abc_world)) 0 = VUndefined
     ∧ getItem (VStr "idx") (VNum (-1)) VNull abc_world
       = (Return VUndefined, abc_world)).
Proof.
  split; [|split].
  - apply (proj1 (getItem_idx_last VNull abc_added)
             [1%positive; 2%positive] 3%positive).
    reflexivity.
  - apply (proj1 (proj2 (getItem_idx_last VNull abc_added))
             1%positive 2%positive 3%positive).
    reflexivity.
  - apply (proj2 (proj2 (getItem_idx_last VNull abc_world))). reflexivity.
Defined.

Lemma addItem_duplicate_atomic_witness :
  addItem (VItem 2) abc_added
    = (Throw (Error (duplicate_message (VNum 2))), abc_added).
Proof.
  apply (addItem_duplicate_atomic abc_added 2%positive (VNum 2) 1%nat);
    [reflexivity|discriminate|reflexivity].
Defined.

(** * Further properties of the code *)

(** ** addItem: what is accepted, what is refused *)

(** Whatever [addItem] throws, it throws before it writes. *)
Lemma addItem_cases (item : val) (w : World) :
  (∃ e, addItem item w = (Throw e, w))
  ∨ (∃ l, item = VItem l
          ∧ (item_get w l "id" = VUndefined
             ∨ __map (this w) !! to_string (item_get w l "id") = None)
          ∧ addItem item w =
              (Return tt,
               with_this (λ m, set_itemList (__itemList m ++ [l]) m)
                 (if strict_ne (item_get w l "id") VUndefined
                  then with_this (λ m,
                         set_map (<[to_string (item_get w l "id")
                                    := length (__itemList m)]> (__map m)) m) w
                  else w))).
Proof.
  destruct item as [| | | | | |l|]; try (left; eexists; reflexivity).
  unfold addItem, mbind, M_bind, gets. simpl.
  destruct (strict_ne (item_get w l "id") VUndefined) eqn:Hdef; simpl.
  - destruct (__map (this w) !! to_string (item_get w l "id")) eqn:Hm.
    + left. rewrite bool_decide_eq_true_2 by eauto. eexists. reflexivity.
    + right. rewrite bool_decide_eq_false_2 by (by intros [? ?]).
      exists l. split; [done|]. split; [by right|]. by rewrite Hdef.
  - right. exists l. split; [done|]. split; [|by rewrite Hdef].
    left. by apply strict_ne_false.
Qed.

(** X1: [addItem] refuses every value that is not an item with the error
    'Invalid item', and whenever it throws, for this or for a duplicate id,
    the world is left exactly as it was. *)
Theorem addItem_all_or_nothing (item : val) (w : World) :
  ((∀ l, item ≠ VItem l) → addItem item w = (Throw (Error "Invalid item"), w))
  ∧ (∀ e w', addItem item w = (Throw e, w') → w' = w).
Proof.
  split.
  - intros Hno. destruct item; try reflexivity. by destruct (Hno l).
  - intros e w' H. destruct (addItem_cases item w) as [[e' He]|(l & _ & _ & Hr)].
    + rewrite He in H. by injection H.
    + rewrite Hr in H. discriminate.
Qed.

Lemma addItem_all_or_nothing_witness :
  addItem (VStr "x") abc_added = (Throw (Error "Invalid item"), abc_added)
  ∧ (addItem (VItem 2) abc_added).2 = abc_added.
Proof.
  split.
  - apply (proj1 (addItem_all_or_nothing (VStr "x") abc_added)).
    intros l. discriminate.
  - apply (proj2 (addItem_all_or_nothing (VItem 2) abc_added)
             (Error (duplicate_message (VNum 2)))).
    reflexivity.
Defined.




(** ** removeItem: the rebuilt list and the rebuilt index *)

(** The world after [removeItem]. *)
Lemma removeItem_world (id : val) (w : World) :
  ∃ w', removeItem id w = (Return tt, w')
        ∧ __itemList (this w')
          = filter (λ x, item_get w x "id" ≠ id) (__itemList (this w))
        ∧ __map (this w')
          = (removeItem_loop w id 0 (__itemList (this w)) [] ∅).2
        ∧ items w' = items w
        ∧ __flags_isLoaded (this w') = __flags_isLoaded (this w)
        ∧ ajax_calls w' = ajax_calls w.
Proof.
  rewrite removeItem_eq. eexists. split; [reflexivity|]. simpl.
  by rewrite removeItem_loop_list.
Qed.

(** X4: [removeItem(id)] never throws; the list it leaves holds, in their
    old order, exactly the items whose id is not [id] (so every item with
    that id goes, not only the first), and neither the items themselves,
    the loaded flag nor the trace of requests are touched. *)
Theorem removeItem_filters (id : val) (w : World) :
  ∃ w', removeItem id w = (Return tt, w')
        ∧ __itemList (this w')
          = filter (λ x, item_get w x "id" ≠ id) (__itemList (this w))
        ∧ (∀ x, x ∈ __itemList (this w')
                ↔ x ∈ __itemList (this w) ∧ item_get w x "id" ≠ id)
        ∧ __itemList (this w') `sublist_of` __itemList (this w)
        ∧ (length (__itemList (this w')) ≤ length (__itemList (this w)))%nat
        ∧ items w' = items w
        ∧ __flags_isLoaded (this w') = __flags_isLoaded (this w)
        ∧ ajax_calls w' = ajax_calls w.
Proof.
  destruct (removeItem_world id w) as (w' & Hr & Hl & _ & Hrest).
  exists w'. split; [done|]. rewrite Hl. split; [done|]. split.
  { intros x. rewrite list_elem_of_filter. tauto. }
  split; [apply sublist_filter|]. split; [apply length_filter|].
  tauto.
Qed.

Section remove_loop_index.
Variable w : World.
Variable id : val.

(** An entry of the rebuilt index was there before the loop, or is the
    loop counter at an item that was kept. *)
Lemma removeItem_loop_entry (rest : list loc) :
  ∀ (i : nat) (_tmp : list loc) (_tmpmap : gmap string nat) (k : string)
    (p : nat),
    (removeItem_loop w id i rest _tmp _tmpmap).2 !! k = Some p →
    _tmpmap !! k = Some p
    ∨ ∃ (j : nat) (x : loc),
        rest !! j = Some x ∧ p = (i + j)%nat
        ∧ item_get w x "id" ≠ id ∧ to_string (item_get w x "id") = k.
Proof.
  induction rest as [|x rest IH]; intros i _tmp _tmpmap k p; simpl; [by left|].
  destruct (strict_ne (item_get w x "id") id) eqn:E; intros H;
    apply IH in H as [H|(j & y & Hj & -> & Hy)].
  - apply lookup_insert_Some in H as [[<- <-]|[_ H]]; [|by left].
    right. exists 0%nat, x. apply strict_ne_true in E.
    split; [done|]. split; [lia|]. by split.
  - right. exists (S j), y. split; [done|]. split; [lia|done].
  - by left.
  - right. exists (S j), y. split; [done|]. split; [lia|done].
Qed.

(** Every key met before or in the loop, at a kept item, has an entry. *)
Lemma removeItem_loop_covers (rest : list loc) :
  ∀ (i : nat) (_tmp : list loc) (_tmpmap : gmap string nat) (k : string),
    is_Some (_tmpmap !! k)
    ∨ (∃ x, x ∈ rest ∧ item_get w x "id" ≠ id
            ∧ to_string (item_get w x "id") = k) →
    is_Some ((removeItem_loop w id i rest _tmp _tmpmap).2 !! k).
Proof.
  induction rest as [|x rest IH]; intros i _tmp _tmpmap k; simpl.
  - intros [H|(x & Hx & _)]; [done|]. by apply elem_of_nil in Hx.
  - intros H. destruct (strict_ne (item_get w x "id") id) eqn:E; apply IH.
    + destruct H as [H|(y & Hy & Hne & Hk)].
      * left. rewrite lookup_insert_is_Some.
        destruct (decide (to_string (item_get w x "id") = k)); auto.
      * apply elem_of_cons in Hy as [->|Hy].
        -- left. rewrite lookup_insert_is_Some. by left.
        -- right. eauto.
    + destruct H as [H|(y & Hy & Hne & Hk)]; [by left|].
      apply elem_of_cons in Hy as [->|Hy]; [|right; eauto].
      apply strict_ne_false in E. by destruct Hne.
Qed.
End remove_loop_index.

(** X5: the index that [removeItem] rebuilds is keyed by the ids of the
    items it keeps, and each entry holds a position of the list as it was
    BEFORE the call: the place where a kept item with that key stood. *)
Theorem removeItem_index_old_positions (id : val) (w : World) :
  ∃ w', removeItem id w = (Return tt, w')
        ∧ (∀ key pos, __map (this w') !! key = Some pos →
             ∃ x, __itemList (this w) !! pos = Some x
                  ∧ x ∈ __itemList (this w')
                  ∧ to_string (item_get w x "id") = key)
        ∧ (∀ x, x ∈ __itemList (this w') →
             is_Some (__map (this w') !! to_string (item_get w x "id"))).
Proof.
  destruct (removeItem_world id w) as (w' & Hr & Hl & Hm & _).
  exists w'. split; [done|]. rewrite Hl, Hm. split.
  - intros key pos H.
    apply removeItem_loop_entry in H as [H|(j & x & Hj & -> & Hx & Hk)].
    { by rewrite lookup_empty in H. }
    exists x. split; [done|]. split; [|done].
    apply list_elem_of_filter. split; [done|].
    apply list_elem_of_lookup. eauto.
  - intros x [Hne Hx]%list_elem_of_filter.
    apply removeItem_loop_covers. right. eauto.
Qed.

(** ** Invariants over sequences of mutations *)

Lemma omap_sublist {A B} (f : A → option B) (l1 l2 : list A) :
  l1 `sublist_of` l2 → omap f l1 `sublist_of` omap f l2.
Proof.
  induction 1 as [|x l1 l2 _ IH|x l1 l2 _ IH]; simpl; [done|..];
    destruct (f x); auto using sublist_skip, sublist_cons.
Qed.

Lemma unique_ids_addItem (item : val) (w : World) :
  unique_ids w → unique_ids (addItem item w).2.
Proof.
  intros [Hnd Hcov].
  destruct (addItem_cases item w) as [[e ->]|(l & -> & Hok & ->)]; [done|].
  unfold unique_ids. simpl.
  assert (∀ w1 : World, items w1 = items w → id_key w1 = id_key w) as Hkey.
  { intros w1 H1. unfold id_key, item_get. by rewrite H1. }
  rewrite Hkey by (by destruct (strict_ne _ _)).
  rewrite omap_app. simpl. unfold id_key at 2 4.
  destruct (strict_ne (item_get w l "id") VUndefined) eqn:Hdef; simpl.
  - destruct Hok as [Hu|Hfree].
    { apply strict_ne_true in Hdef. by destruct Hdef. }
    split.
    + apply NoDup_app. split; [done|]. split; [|apply NoDup_singleton].
      intros k Hk ->%list_elem_of_singleton.
      apply Hcov in Hk as [? Hk]. congruence.
    + intros k [Hk|Hk]%elem_of_app;
        [|apply list_elem_of_singleton in Hk as ->];
        rewrite lookup_insert_is_Some; [|by left].
      destruct (decide (to_string (item_get w l "id") = k)); [by left|].
      right. split; [done|]. by apply Hcov.
  - rewrite app_nil_r. by split.
Qed.

Lemma unique_ids_removeItem (id : val) (w : World) :
  unique_ids w → unique_ids (removeItem id w).2.
Proof.
  intros [Hnd _].
  destruct (removeItem_world id w) as (w' & Hr & Hl & Hm & Hit & _).
  rewrite Hr. simpl.
  assert (id_key w' = id_key w) as Hkey.
  { unfold id_key, item_get. by rewrite Hit. }
  unfold unique_ids. rewrite Hkey, Hl, Hm. split.
  - eapply sublist_NoDup; [exact Hnd|]. apply omap_sublist, sublist_filter.
  - intros k (x & Hx & Hk)%list_elem_of_omap. unfold id_key in Hk.
    destruct (strict_ne _ _); [|done]. injection Hk as <-.
    apply list_elem_of_filter in Hx as [Hne Hx].
    apply removeItem_loop_covers. right. eauto.
Qed.

Lemma unique_ids_clear (w : World) : unique_ids (clear w).2.
Proof.
  split; simpl; [apply NoDup_nil_2|]. intros k Hk. by apply elem_of_nil in Hk.
Qed.

(** X6: whatever sequence of [addItem], [removeItem] and [clear] is run on
    a new manager, no two items of the list carry ids with the same
    property key (so no two carry the same id), and the index has an entry
    for the id of every item that has one. *)
Theorem unique_ids_always (ms : list mutation) (w : World) (url : val) :
  this w = Mumsys_Generic_Manager url →
  unique_ids (run_mutations ms w).
Proof.
  intros Hnew.
  assert (unique_ids w) as Hw.
  { unfold unique_ids. rewrite Hnew. unfold Mumsys_Generic_Manager.
    destruct (to_boolean url); simpl; (split; [apply NoDup_nil_2|]);
      intros k Hk; by apply elem_of_nil in Hk. }
  clear Hnew. revert w Hw.
  induction ms as [|m ms IH]; intros w Hw; [done|]. simpl. apply IH.
  destruct m as [item|id|]; simpl.
  - by apply unique_ids_addItem.
  - by apply unique_ids_removeItem.
  - apply unique_ids_clear.
Qed.

Lemma unique_ids_always_witness :
  unique_ids (run_mutations
                [MAddItem (VItem 1); MAddItem (VItem 2); MAddItem (VItem 3);
                 MRemoveItem (VNum 2); MAddItem (VItem 2); MAddItem (VItem 3)]
                abc_world).
Proof.
  apply (unique_ids_always _ abc_world (VBool false)). reflexivity.
Defined.

(** X7: as long as no [removeItem] is among them, the calls of [addItem]
    and [clear] on a new manager keep the index consistent with the list:
    every id is indexed at the position of its item, and every entry of the
    index names the position of the item with that id. *)
Theorem index_consistent_without_remove (ms : list mutation) (w : World)
    (url : val) :
  this w = Mumsys_Generic_Manager url →
  forallb (λ m, negb (is_remove m)) ms = true →
  index_consistent (run_mutations ms w).
Proof.
  intros Hnew%new_manager_index_consistent. revert w Hnew.
  induction ms as [|m ms IH]; intros w Hw Hms; [done|]. simpl in *.
  apply andb_true_iff in Hms as [Hm Hms]. apply IH; [|done].
  destruct m as [item|id|]; simpl in *; [|done|].
  - by apply addItem_index_consistent.
  - apply clear_index_consistent.
Qed.

Lemma index_consistent_without_remove_witness :
  index_consistent (run_mutations
                      [MAddItem (VItem 1); MAddItem (VItem 2); MClear;
                       MAddItem (VItem 3); MAddItem (VItem 2)]
                      abc_world).
Proof.
  apply (index_consistent_without_remove _ abc_world (VBool false));
    reflexivity.
Defined.

(** ** getItem: positions, scan, and the index path *)

(** A number never prints with a leading letter l. *)
Lemma pretty_N_go_not_l (x : N) (s s' : string) :
  s ≠ String "l" s' → pretty_N_go x s ≠ String "l" s'.
Proof.
  revert s. induction (N.lt_wf_0 x) as [x _ IH]. intros s Hs.
  destruct (decide (x = 0%N)) as [->|Hx].
  - by rewrite pretty_N_go_0.
  - rewrite pretty_N_go_step by lia. apply IH.
    + apply N.div_lt; lia.
    + unfold pretty_N_char. repeat case_match; discriminate.
Qed.

Lemma pretty_Z_not_length (n : Z) : pretty n ≠ "length".
Proof.
  destruct n as [|p|p]; [discriminate| |discriminate].
  unfold pretty, pretty_Z, pretty, pretty_positive, pretty, pretty_N.
  rewrite decide_False by lia. by apply pretty_N_go_not_l.
Qed.

(** Reading an array at a number: the element at that position, and
    undefined below zero and from the length on. *)
Lemma array_get_num (a : list loc) (n : Z) :
  array_get a (VNum n) =
    if decide (0 ≤ n) then array_at a (Z.to_nat n) else VUndefined.
Proof.
  unfold array_get. simpl.
  destruct (list_find _ _) as [[j i]|] eqn:Hf.
  - apply list_find_Some in Hf as (Hj & Hp & _).
    apply (inj pretty) in Hp. subst n.
    rewrite decide_True by lia. by rewrite Nat2Z.id.
  - rewrite decide_False by apply pretty_Z_not_length.
    case_decide as Hn; [|done].
    unfold array_at. destruct (a !! Z.to_nat n) as [x|] eqn:Hx; [|done].
    exfalso. apply lookup_lt_Some in Hx.
    eapply list_find_None, Forall_forall in Hf.
    + apply Hf. by rewrite Z2Nat.id.
    + apply elem_of_seq. lia.
Qed.

(** X8: [getItem("idx", n)] for a number other than -1 returns the item
    at position n, and undefined when n is negative or not below the
    length; the default of the caller is never returned on this path, and
    the world is not changed. *)
Theorem getItem_idx_position (w : World) (n : Z) (defreturn : val) :
  n ≠ -1 →
  (∀ x, 0 ≤ n → __itemList (this w) !! Z.to_nat n = Some x →
        getItem (VStr "idx") (VNum n) defreturn w = (Return (VItem x), w))
  ∧ (n < 0 ∨ Z.of_nat (length (__itemList (this w))) ≤ n →
     getItem (VStr "idx") (VNum n) defreturn w = (Return VUndefined, w)).
Proof.
  intros Hn.
  assert (getItem (VStr "idx") (VNum n) defreturn w
          = (Return (array_get (__itemList (this w)) (VNum n)), w)) as ->.
  { unfold getItem, mbind, M_bind, gets, mret, M_ret. simpl.
    assert (strict_eq (VNum n) (VNum (-1)) = false) as ->; [|done].
    apply strict_eq_false. congruence. }
  rewrite array_get_num. split.
  - intros x H0 Hx. rewrite decide_True by done. unfold array_at. by rewrite Hx.
  - intros [Hneg|Hge]; [by rewrite decide_False by lia|].
    case_decide; [|done]. unfold array_at.
    rewrite lookup_ge_None_2; [done|lia].
Qed.

Lemma getItem_idx_position_witness :
  getItem (VStr "idx") (VNum 1) (VStr "none") abc_added
    = (Return (VItem 2), abc_added)
  ∧ getItem (VStr "idx") (VNum 3) (VStr "none") abc_added
    = (Return VUndefined, abc_added).
Proof.
  split.
  - apply (proj1 (getItem_idx_position abc_added 1 (VStr "none")
                    ltac:(discriminate)) 2%positive); [lia|reflexivity].
  - apply (proj2 (getItem_idx_position abc_added 3 (VStr "none")
                    ltac:(discriminate))).
    right. vm_compute. discriminate.
Defined.

Lemma getItem_scan_first (w : World) (key value : val) (a b : list loc)
    (x : loc) :
  (∀ y, y ∈ a → item_get w y (to_string key) ≠ value) →
  item_get w x (to_string key) = value →
  getItem_scan w key value (a ++ x :: b) = Some x.
Proof.
  intros Hno Hx. induction a as [|y a IH]; simpl.
  - apply strict_eq_true in Hx. by rewrite Hx.
  - assert (strict_eq (item_get w y (to_string key)) value = false) as ->.
    { apply strict_eq_false, Hno. left. }
    apply IH. intros z Hz. apply Hno. by right.
Qed.

Lemma getItem_scan_none (w : World) (key value : val) (a : list loc) :
  (∀ y, y ∈ a → item_get w y (to_string key) ≠ value) →
  getItem_scan w key value a = None.
Proof.
  intros Hno. induction a as [|y a IH]; simpl; [done|].
  assert (strict_eq (item_get w y (to_string key)) value = false) as ->.
  { apply strict_eq_false, Hno. left. }
  apply IH. intros z Hz. apply Hno. by right.
Qed.

(** When [getItem] reaches its loop, it is a scan of the list. *)
Lemma getItem_by_scan (w : World) (key value defreturn : val) :
  key ≠ VStr "idx" →
  (key = VStr "id" → __map (this w) !! "id" = None) →
  getItem key value defreturn w =
    (Return (from_option VItem defreturn
               (getItem_scan w key value (__itemList (this w)))), w).
Proof.
  intros Hidx Hid. unfold getItem, mbind, M_bind, gets, mret, M_ret. simpl.
  apply strict_eq_false in Hidx. rewrite Hidx.
  assert ((if strict_eq key (VStr "id")
           then __map (this w) !! to_string key else None) = None) as ->.
  { destruct (strict_eq key (VStr "id")) eqn:E; [|done].
    apply strict_eq_true in E. subst key. by apply Hid. }
  by destruct (getItem_scan _ _ _ _).
Qed.

(** X9: for a key other than "idx" (and, for the key "id", as long as the
    index has no entry named "id"), [getItem] returns the first item of the
    list whose property equals the value under [===], and the default of
    the caller when there is none; the world is not changed. *)
Theorem getItem_first_match (w : World) (key value defreturn : val) :
  key ≠ VStr "idx" →
  (key = VStr "id" → __map (this w) !! "id" = None) →
  (∀ a x b,
     __itemList (this w) = (a ++ x :: b)%list →
     (∀ y, y ∈ a → item_get w y (to_string key) ≠ value) →
     item_get w x (to_string key) = value →
     getItem key value defreturn w = (Return (VItem x), w))
  ∧ ((∀ y, y ∈ __itemList (this w) → item_get w y (to_string key) ≠ value) →
     getItem key value defreturn w = (Return defreturn, w)).
Proof.
  intros Hidx Hid. rewrite getItem_by_scan by done. split.
  - intros a x b -> Hno Hx. by rewrite getItem_scan_first.
  - intros Hno. by rewrite getItem_scan_none.
Qed.

Lemma getItem_first_match_witness :
  getItem (VStr "name") (VStr "n") VNull named_world
    = (Return (VItem 2), named_world)
  ∧ getItem (VStr "name") (VNum 0) VNull named_world
    = (Return VNull, named_world).
Proof.
  split.
  - apply (proj1 (getItem_first_match named_world (VStr "name") (VStr "n") VNull
                    ltac:(discriminate) ltac:(discriminate))
             [1%positive] 2%positive [3%positive]); [reflexivity| |reflexivity].
    intros y Hy. apply list_elem_of_singleton in Hy as ->.
    vm_compute. discriminate.
  - apply (proj2 (getItem_first_match named_world (VStr "name") (VNum 0) VNull
                    ltac:(discriminate) ltac:(discriminate))).
    intros y Hy. vm_compute in Hy.
    repeat (apply elem_of_cons in Hy as [->|Hy]; [by vm_compute|]).
    by apply elem_of_nil in Hy.
Defined.

(** X10: in a manager whose index is consistent with its list (such as
    one built by [addItem] and [clear]), once an item whose id is the
    string "id" is in the list, [getItem("id", value)] returns that item
    for every value asked for and every default. *)
Theorem getItem_id_ignores_value (w : World) (i : nat) (x : loc)
    (value defreturn : val) :
  index_consistent w →
  __itemList (this w) !! i = Some x →
  item_get w x "id" = VStr "id" →
  getItem (VStr "id") value defreturn w = (Return (VItem x), w).
Proof.
  intros [H1 _] Hi Hx. specialize (H1 i x Hi). rewrite Hx in H1.
  specialize (H1 ltac:(discriminate)). simpl in H1.
  unfold getItem, mbind, M_bind, gets, mret, M_ret. simpl.
  rewrite H1. unfold array_at. by rewrite Hi.
Qed.

Lemma getItem_id_ignores_value_witness :
  getItem (VStr "id") (VNum 42) VNull
    (run_mutations [MAddItem (VItem 1); MAddItem (VItem 2)] id_world)
  = (Return (VItem 1),
     run_mutations [MAddItem (VItem 1); MAddItem (VItem 2)] id_world).
Proof.
  apply (getItem_id_ignores_value
           (run_mutations [MAddItem (VItem 1); MAddItem (VItem 2)] id_world)
           0%nat 1%positive (VNum 42) VNull); [|reflexivity|reflexivity].
  apply addItem_index_consistent, addItem_index_consistent.
  by apply (new_manager_index_consistent _ (VBool false)).
Defined.

(** ** _buildParams: aliasing and merge *)

(** X11: without overrides (a falsy third argument, such as the default
    [false]), [_buildParams] allocates nothing: it writes [data] into the
    defaults object it was given and returns that very object. *)
Theorem buildParams_reuses_defaults (w : World) (defaults : loc)
    (o : gmap string val) (data requestParams : val) :
  to_boolean requestParams = false →
  objs w !! defaults = Some o →
  ∃ w', _buildParams defaults data requestParams w = (Return (VObj defaults), w')
        ∧ objs w' = <[defaults := <["data" := data]> o]> (objs w)
        ∧ next_obj w' = next_obj w
        ∧ items w' = items w ∧ this w' = this w
        ∧ ajax_calls w' = ajax_calls w.
Proof.
  intros Hrp Ho.
  unfold _buildParams, mbind, M_bind, set_prop, mret, M_ret.
  rewrite Hrp, Ho. eexists. split; [reflexivity|]. by repeat split.
Qed.

Lemma buildParams_reuses_defaults_witness :
  ∃ w', _buildParams 1%positive (VObj 2) (VBool false) example_world
          = (Return (VObj 1), w')
        ∧ objs w' = <[1%positive := <["data" := VObj 2]>
                                      {[ "a" := VNum 1; "b" := VNum 2 ]}]>
                      (objs example_world)
        ∧ next_obj w' = next_obj example_world
        ∧ items w' = items example_world ∧ this w' = this example_world
        ∧ ajax_calls w' = ajax_calls example_world.
Proof.
  apply (buildParams_reuses_defaults example_world 1%positive
           {[ "a" := VNum 1; "b" := VNum 2 ]} (VObj 2) (VBool false));
    reflexivity.
Defined.

(** X12: with an overrides object, [_buildParams] returns a new object
    and modifies no object that existed before the call: the defaults, the
    overrides and the data are as they were. *)
Theorem buildParams_fresh_object (w : World) (defaults overrides : loc)
    (data : val) :
  objs w !! next_obj w = None →
  ∃ l w', _buildParams defaults data (VObj overrides) w = (Return (VObj l), w')
          ∧ objs w !! l = None
          ∧ is_Some (objs w' !! l)
          ∧ (∀ l', is_Some (objs w !! l') → objs w' !! l' = objs w !! l')
          ∧ items w' = items w ∧ this w' = this w
          ∧ ajax_calls w' = ajax_calls w.
Proof.
  intros Hfresh. rewrite buildParams_object. do 2 eexists.
  split; [reflexivity|]. simpl. split; [done|]. split.
  { rewrite lookup_insert_eq. eauto. }
  split; [|done]. intros l' [o Ho].
  rewrite !lookup_insert_ne; [done|congruence..].
Qed.

Lemma buildParams_fresh_object_witness :
  ∃ l w', _buildParams 1%positive (VObj 2) (VObj 3) example_world
            = (Return (VObj l), w')
          ∧ objs example_world !! l = None
          ∧ is_Some (objs w' !! l)
          ∧ (∀ l', is_Some (objs example_world !! l') →
                   objs w' !! l' = objs example_world !! l')
          ∧ items w' = items example_world ∧ this w' = this example_world
          ∧ ajax_calls w' = ajax_calls example_world.
Proof.
  apply (buildParams_fresh_object example_world 1%positive 3%positive (VObj 2)).
  reflexivity.
Defined.



(** The four cases of the merge on one bag. *)
Example buildParams_merge_cases :
  let r := _buildParams 1%positive VNull (VObj 2) merge_world in
  r.1 = Return (VObj 3)
  ∧ objs r.2 !! 3%positive
    = Some {[ "a" := VUndefined; "c" := VNum 3; "d" := VNum 4;
              "data" := VNull ]}.
Proof. split; [reflexivity|by vm_compute]. Qed.

(** ** loadItems: what the call itself does *)

Lemma loadItems_world (data requestParams : val) (w : World) :
  ∃ l bag,
    loadItems data requestParams w =
      (Return tt,
       {| items := items w; objs := <[l := <["data" := data]> bag]> (objs
            (new_object (loadItems_defaults (__url (this w))) w).2);
          next_obj := (if to_boolean requestParams
                       then Pos.succ (Pos.succ (next_obj w))
                       else Pos.succ (next_obj w));
          this := set_isLoaded false (this w);
          ajax_calls := ajax_calls w ++ [VObj l] |})
    ∧ (to_boolean requestParams = false →
       l = next_obj w ∧ bag = loadItems_defaults (__url (this w))).
Proof.
  unfold loadItems, _buildParams, jQuery_ajax, set_prop, new_object, modify,
    gets, mbind, M_bind, mret, M_ret. simpl.
  destruct (to_boolean requestParams); simpl; rewrite lookup_insert_eq; simpl.
  - rewrite insert_insert_eq. do 2 eexists. split; [reflexivity|done].
  - exists (next_obj w), (loadItems_defaults (__url (this w))).
    by rewrite insert_insert_eq.
Qed.

(** X14: [loadItems] never throws.  It lowers the loaded flag, whatever it
    was, dispatches exactly one request, whose [data] is the data it was
    given, and leaves the list, the index and the items as they are: what
    was loaded before stays. *)
Theorem loadItems_dispatches (data requestParams : val) (w : World) :
  ∃ l w', loadItems data requestParams w = (Return tt, w')
          ∧ isLoaded w' = (Return false, w')
          ∧ ajax_calls w' = (ajax_calls w ++ [VObj l])%list
          ∧ get_prop w' (VObj l) "data" = data
          ∧ __itemList (this w') = __itemList (this w)
          ∧ __map (this w') = __map (this w)
          ∧ __url (this w') = __url (this w)
          ∧ items w' = items w.
Proof.
  destruct (loadItems_world data requestParams w) as (l & bag & -> & _).
  do 2 eexists. split; [reflexivity|]. simpl.
  unfold get_prop, enum_props, lookup_prop. simpl.
  rewrite lookup_insert_eq. simpl. rewrite lookup_insert_eq. by repeat split.
Qed.

(** X15: called without request parameters, [loadItems] sends the url of
    the manager, an asynchronous GET with JSON content and data type, its
    two callbacks, and the data. *)
Theorem loadItems_default_request (data requestParams : val) (w : World) :
  to_boolean requestParams = false →
  ∃ l w', loadItems data requestParams w = (Return tt, w')
          ∧ ajax_calls w' = (ajax_calls w ++ [VObj l])%list
          ∧ objs w' !! l
            = Some (<["data" := data]> (loadItems_defaults (__url (this w))))
          ∧ get_prop w' (VObj l) "url" = __url (this w)
          ∧ get_prop w' (VObj l) "type" = VStr "GET"
          ∧ get_prop w' (VObj l) "async" = VBool true.
Proof.
  intros Hrp.
  destruct (loadItems_world data requestParams w) as (l & bag & -> & Hb).
  destruct (Hb Hrp) as [-> ->].
  do 2 eexists. split; [reflexivity|]. simpl.
  unfold get_prop, enum_props, lookup_prop. simpl.
  rewrite lookup_insert_eq. simpl. by repeat split.
Qed.

Lemma loadItems_default_request_witness :
  ∃ l w', loadItems (VObj 2) (VBool false) example_world = (Return tt, w')
          ∧ ajax_calls w' = (ajax_calls example_world ++ [VObj l])%list
          ∧ objs w' !! l
            = Some (<["data" := VObj 2]>
                      (loadItems_defaults (__url (this example_world))))
          ∧ get_prop w' (VObj l) "url" = __url (this example_world)
          ∧ get_prop w' (VObj l) "type" = VStr "GET"
          ∧ get_prop w' (VObj l) "async" = VBool true.
Proof.
  apply (loadItems_default_request (VObj 2) (VBool false) example_world).
  reflexivity.
Defined.

(** ** saveItem: the request, the flag and the params object *)

Lemma saveItem_item_defined (w : World) (item : val) (params : loc)
    (requestParams : val) (o : gmap string val) :
  objs w !! params = Some o →
  lookup_prop o "item" ≠ VUndefined →
  saveItem item params requestParams w
    = (Throw (Error "params.item property already defined"), w).
Proof.
  intros Ho Hdef. unfold saveItem, mbind, M_bind, read_prop. rewrite Ho.
  apply strict_ne_true in Hdef. by rewrite Hdef.
Qed.

Lemma saveItem_clean (w : World) (l : loc) (it : Item) (params : loc)
    (requestParams : val) (o : gmap string val) :
  items w !! l = Some it →
  modified it = false →
  objs w !! params = Some o →
  lookup_prop o "item" = VUndefined →
  saveItem (VItem l) params requestParams w = (Return (VItem l), w).
Proof.
  intros Hit Hclean Ho Hnone.
  unfold saveItem, mbind, M_bind, read_prop, item_isModified.
  rewrite Ho, Hnone. simpl. by rewrite Hit, Hclean.
Qed.

(** The world after a modified item has been sent. *)
Lemma saveItem_modified_world (w : World) (l : loc) (it : Item) (params : loc)
    (o : gmap string val) (requestParams : val) :
  items w !! l = Some it →
  modified it = true →
  objs w !! params = Some o →
  lookup_prop o "item" = VUndefined →
  (params < next_obj w)%positive →
  ∃ bag w',
    saveItem (VItem l) params requestParams w = (Return (VItem l), w')
    ∧ items w' = <[l := Item_setModified it false]> (items w)
    ∧ this w' = this w
    ∧ ajax_calls w' = (ajax_calls w ++ [VObj bag])%list
    ∧ objs w' !! params = Some (<["item" := VObj (next_obj w)]> o)
    ∧ objs w' !! next_obj w = Some (props it)
    ∧ get_prop w' (VObj bag) "data" = VObj params
    ∧ (∀ l', (l' < next_obj w)%positive → l' ≠ params →
             objs w' !! l' = objs w !! l')
    ∧ (to_boolean requestParams = false →
       objs w' !! bag
       = Some (<["data" := VObj params]> (saveItem_defaults (__url (this w))))).
Proof.
  intros Hit Hdirty Ho Hnone Hlt.
  unfold saveItem, _buildParams, item_getProperties, item_isModified,
    item_setModified, jQuery_ajax, read_prop, set_prop, new_object, modify,
    gets, mbind, M_bind, mret, M_ret.
  rewrite Ho, Hnone. simpl. rewrite Hit, Hdirty. simpl.
  rewrite lookup_insert_ne, Ho by lia. simpl.
  destruct (to_boolean requestParams); simpl;
    rewrite lookup_insert_eq; simpl; rewrite Hit;
    do 2 eexists; (split; [reflexivity|]); simpl;
    unfold get_prop, enum_props, lookup_prop; simpl;
    repeat split; try done.
  - rewrite !lookup_insert_ne by lia. by rewrite lookup_insert_eq.
  - rewrite !lookup_insert_ne by lia. by rewrite lookup_insert_eq.
  - rewrite lookup_insert_eq. simpl. by rewrite lookup_insert_eq.
  - intros l' Hl' Hne. by rewrite !lookup_insert_ne by lia.
  - rewrite !lookup_insert_ne by lia. by rewrite lookup_insert_eq.
  - rewrite !lookup_insert_ne by lia. by rewrite lookup_insert_eq.
  - rewrite lookup_insert_eq. simpl. by rewrite lookup_insert_eq.
  - intros l' Hl' Hne. by rewrite !lookup_insert_ne by lia.
  - intros _. by rewrite lookup_insert_eq.
Qed.

(** X16: for a modified item and a params object without [item],
    [saveItem] returns the item after exactly one request, whose data is
    the params object; the flag of the item is cleared at once, its
    properties are kept, the manager is untouched, and the params object of
    the caller now carries under [item] the object the call has allocated
    for the properties of the item. *)
Theorem saveItem_modified_sends (w : World) (l : loc) (it : Item)
    (params : loc) (o : gmap string val) (requestParams : val) :
  items w !! l = Some it →
  modified it = true →
  objs w !! params = Some o →
  lookup_prop o "item" = VUndefined →
  (params < next_obj w)%positive →
  ∃ bag w',
    saveItem (VItem l) params requestParams w = (Return (VItem l), w')
    ∧ ajax_calls w' = (ajax_calls w ++ [VObj bag])%list
    ∧ get_prop w' (VObj bag) "data" = VObj params
    ∧ items w' !! l = Some {| props := props it; modified := false |}
    ∧ this w' = this w
    ∧ objs w' !! params = Some (<["item" := VObj (next_obj w)]> o)
    ∧ objs w' !! next_obj w = Some (props it).
Proof.
  intros Hit Hdirty Ho Hnone Hlt.
  destruct (saveItem_modified_world w l it params o requestParams)
    as (bag & w' & Hr & Hitems & Hthis & Hajax & Hp & Hs & Hd & _); try done.
  exists bag, w'. rewrite Hitems, lookup_insert_eq.
  by repeat split.
Qed.

Lemma saveItem_modified_sends_witness :
  ∃ bag w',
    saveItem (VItem 1) 1%positive (VBool false) resave_world
      = (Return (VItem 1), w')
    ∧ ajax_calls w' = (ajax_calls resave_world ++ [VObj bag])%list
    ∧ get_prop w' (VObj bag) "data" = VObj 1
    ∧ items w' !! 1%positive
      = Some {| props := {[ "name" := VStr "n" ]}; modified := false |}
    ∧ this w' = this resave_world
    ∧ objs w' !! 1%positive
      = Some (<["item" := VObj 3]> {[ "action" := VStr "save" ]})
    ∧ objs w' !! 3%positive = Some {[ "name" := VStr "n" ]}.
Proof.
  exact (saveItem_modified_sends resave_world 1%positive
           {| props := {[ "name" := VStr "n" ]}; modified := true |}
           1%positive {[ "action" := VStr "save" ]} (VBool false)
           eq_refl eq_refl eq_refl eq_refl eq_refl).
Defined.

(** X17: the params object cannot be used twice.  After [saveItem] has
    sent a modified item, any further [saveItem] with the same params
    object, for whatever item, throws 'params.item property already
    defined' and sends nothing. *)
Theorem saveItem_params_not_reusable (w : World) (l : loc) (it : Item)
    (params : loc) (o : gmap string val) (requestParams : val)
    (item' requestParams' : val) :
  items w !! l = Some it →
  modified it = true →
  objs w !! params = Some o →
  lookup_prop o "item" = VUndefined →
  (params < next_obj w)%positive →
  ∃ w', saveItem (VItem l) params requestParams w = (Return (VItem l), w')
        ∧ saveItem item' params requestParams' w'
          = (Throw (Error "params.item property already defined"), w').
Proof.
  intros Hit Hdirty Ho Hnone Hlt.
  destruct (saveItem_modified_world w l it params o requestParams)
    as (bag & w' & Hr & _ & _ & _ & Hp & _); try done.
  exists w'. split; [done|].
  apply (saveItem_item_defined _ _ _ _ _ Hp).
  unfold lookup_prop. by rewrite lookup_insert_eq.
Qed.

Lemma saveItem_params_not_reusable_witness :
  ∃ w', saveItem (VItem 1) 1%positive (VBool false) resave_world
          = (Return (VItem 1), w')
        ∧ saveItem (VItem 1) 1%positive (VBool false) w'
          = (Throw (Error "params.item property already defined"), w').
Proof.
  apply (saveItem_params_not_reusable resave_world 1%positive
           {| props := {[ "name" := VStr "n" ]}; modified := true |}
           1%positive {[ "action" := VStr "save" ]} (VBool false)
           (VItem 1) (VBool false));
    reflexivity.
Defined.

(** X18: an item is sent once.  After [saveItem] has sent it, a second
    [saveItem] of the same item with another params object returns the
    item and changes nothing: no second request leaves, although no answer
    to the first one has been seen. *)
Theorem saveItem_sends_once (w : World) (l : loc) (it : Item)
    (params params2 : loc) (o o2 : gmap string val)
    (requestParams requestParams2 : val) :
  items w !! l = Some it →
  modified it = true →
  objs w !! params = Some o →
  lookup_prop o "item" = VUndefined →
  (params < next_obj w)%positive →
  objs w !! params2 = Some o2 →
  lookup_prop o2 "item" = VUndefined →
  (params2 < next_obj w)%positive →
  params2 ≠ params →
  ∃ w', saveItem (VItem l) params requestParams w = (Return (VItem l), w')
        ∧ length (ajax_calls w') = S (length (ajax_calls w))
        ∧ saveItem (VItem l) params2 requestParams2 w' = (Return (VItem l), w').
Proof.
  intros Hit Hdirty Ho Hnone Hlt Ho2 Hnone2 Hlt2 Hne.
  destruct (saveItem_modified_world w l it params o requestParams)
    as (bag & w' & Hr & Hitems & _ & Hajax & _ & _ & _ & Hframe & _); try done.
  exists w'. split; [done|]. split.
  { rewrite Hajax, length_app. simpl. lia. }
  apply (saveItem_clean w' l (Item_setModified it false) params2 _ o2);
    [by rewrite Hitems, lookup_insert_eq|done| |done].
  by rewrite Hframe.
Qed.

Lemma saveItem_sends_once_witness :
  ∃ w', saveItem (VItem 1) 1%positive (VBool false) resave_world
          = (Return (VItem 1), w')
        ∧ length (ajax_calls w') = S (length (ajax_calls resave_world))
        ∧ saveItem (VItem 1) 2%positive (VBool false) w' = (Return (VItem 1), w').
Proof.
  apply (saveItem_sends_once resave_world 1%positive
           {| props := {[ "name" := VStr "n" ]}; modified := true |}
           1%positive 2%positive {[ "action" := VStr "save" ]}
           {[ "action" := VStr "again" ]} (VBool false) (VBool false));
    try reflexivity.
  discriminate.
Defined.

(** X19: called without request parameters, [saveItem] sends a POST to
    the url of the manager, with its [fail] callback and the params object
    as data. *)
Theorem saveItem_default_request (w : World) (l : loc) (it : Item)
    (params : loc) (o : gmap string val) (requestParams : val) :
  items w !! l = Some it →
  modified it = true →
  objs w !! params = Some o →
  lookup_prop o "item" = VUndefined →
  (params < next_obj w)%positive →
  to_boolean requestParams = false →
  ∃ bag w',
    saveItem (VItem l) params requestParams w = (Return (VItem l), w')
    ∧ ajax_calls w' = (ajax_calls w ++ [VObj bag])%list
    ∧ objs w' !! bag
      = Some (<["data" := VObj params]> (saveItem_defaults (__url (this w))))
    ∧ get_prop w' (VObj bag) "url" = __url (this w)
    ∧ get_prop w' (VObj bag) "type" = VStr "POST".
Proof.
  intros Hit Hdirty Ho Hnone Hlt Hrp.
  destruct (saveItem_modified_world w l it params o requestParams)
    as (bag & w' & Hr & _ & _ & Hajax & _ & _ & _ & _ & Hbag); try done.
  exists bag, w'. specialize (Hbag Hrp).
  unfold get_prop, enum_props, lookup_prop. rewrite Hbag.
  by repeat split.
Qed.

Lemma saveItem_default_request_witness :
  ∃ bag w',
    saveItem (VItem 1) 1%positive (VBool false) resave_world
      = (Return (VItem 1), w')
    ∧ ajax_calls w' = (ajax_calls resave_world ++ [VObj bag])%list
    ∧ objs w' !! bag
      = Some (<["data" := VObj 1]>
                (saveItem_defaults (__url (this resave_world))))
    ∧ get_prop w' (VObj bag) "url" = __url (this resave_world)
    ∧ get_prop w' (VObj bag) "type" = VStr "POST".
Proof.
  apply (saveItem_default_request resave_world 1%positive
           {| props := {[ "name" := VStr "n" ]}; modified := true |}
           1%positive {[ "action" := VStr "save" ]} (VBool false));
    reflexivity.
Defined.

(** X20: [saveItem] never touches the collection: whether it returns or
    throws, the list, the index, the loaded flag and the url of the manager
    are what they were. *)
Theorem saveItem_keeps_manager (item : val) (params : loc)
    (requestParams : val) (w : World) :
  this (saveItem item params requestParams w).2 = this w.
Proof.
  unfold saveItem, _buildParams, item_getProperties, item_isModified,
    item_setModified, jQuery_ajax, read_prop, set_prop, new_object, modify,
    gets, throw, mbind, M_bind, mret, M_ret.
  repeat (case_match; simplify_eq/=; try done).
Qed.

(** ** addItem and removeItem as a round trip *)


